(** * RewindPix: the upload-to-generation pipeline of [App] and [ImageUploader]

    A shallow embedding of the two React components of the repository:
    the application controller (state hooks and event handlers of [App]) and
    the photo capture component ([ImageUploader]).  React state hooks are
    modelled as fields of a record and each setter as a function on that
    record; an [async] handler is split at its [await] into the part that
    runs with the event and the part that runs when the promise settles. *)

From Stdlib Require Import Bool List String Ascii NArith ZArith Zify Lia.
From Stdlib Require Import Strings.Byte.
Import ListNotations.
Local Open Scope string_scope.

(** ** JavaScript string operations used by the components *)

Module Js.

(** [s.startsWith(p)] *)
Fixpoint startsWith (s p : string) {struct p} : bool :=
  match p with
  | EmptyString => true
  | String c p' =>
      match s with
      | EmptyString => false
      | String d s' => Ascii.eqb d c && startsWith s' p'
      end
  end.

(** [s.includes(m)] *)
Fixpoint includes (s m : string) : bool :=
  startsWith s m ||
  match s with
  | EmptyString => false
  | String _ s' => includes s' m
  end.

(** Occurrence of one character in a string. *)
Fixpoint hasChar (c : ascii) (s : string) : bool :=
  match s with
  | EmptyString => false
  | String d s' => Ascii.eqb d c || hasChar c s'
  end.

(** [s.split(sep)] for a one-character separator; the result is never empty
    ([''.split(',')] is [['']]). *)
Fixpoint split (sep : ascii) (s : string) : list string :=
  match s with
  | EmptyString => [EmptyString]
  | String c s' =>
      if Ascii.eqb c sep then EmptyString :: split sep s'
      else match split sep s' with
           | h :: t => String c h :: t
           | [] => [String c EmptyString]
           end
  end.

(** Truthiness of a [string | null] value: [null] and [''] are falsy. *)
Definition truthy (v : option string) : bool :=
  match v with
  | None => false
  | Some EmptyString => false
  | Some (String _ _) => true
  end.

(** Truthiness of an [object | null] value: every object is truthy. *)
Definition present {A : Type} (v : option A) : bool :=
  match v with
  | None => false
  | Some _ => true
  end.

End Js.

(** ** Data model of [App] *)

(** The object half of [PhotoState].  [base64Data] is the element at index 1
    of an array, which JavaScript leaves [undefined] ([None]) when the array is
    shorter. *)
Record Photo : Type := mkPhoto {
  base64Data : option string;
  mimeType : string
}.

(** [PhotoState = { base64Data; mimeType } | null] *)
Definition PhotoState : Type := option Photo.

(** The five state hooks of [App]. *)
Record AppState : Type := mkAppState {
  childPhoto : PhotoState;
  adultPhoto : PhotoState;
  generatedImage : option string;
  isLoading : bool;
  error : option string
}.

(** The arguments of the five [useState] calls. *)
Definition initialState : AppState :=
  {| childPhoto := None; adultPhoto := None; generatedImage := None;
     isLoading := false; error := None |}.

(** *** The setters *)

Definition setChildPhoto (v : PhotoState) (s : AppState) : AppState :=
  {| childPhoto := v; adultPhoto := adultPhoto s;
     generatedImage := generatedImage s; isLoading := isLoading s;
     error := error s |}.

Definition setAdultPhoto (v : PhotoState) (s : AppState) : AppState :=
  {| childPhoto := childPhoto s; adultPhoto := v;
     generatedImage := generatedImage s; isLoading := isLoading s;
     error := error s |}.

Definition setGeneratedImage (v : option string) (s : AppState) : AppState :=
  {| childPhoto := childPhoto s; adultPhoto := adultPhoto s;
     generatedImage := v; isLoading := isLoading s; error := error s |}.

Definition setIsLoading (v : bool) (s : AppState) : AppState :=
  {| childPhoto := childPhoto s; adultPhoto := adultPhoto s;
     generatedImage := generatedImage s; isLoading := v; error := error s |}.

Definition setError (v : option string) (s : AppState) : AppState :=
  {| childPhoto := childPhoto s; adultPhoto := adultPhoto s;
     generatedImage := generatedImage s; isLoading := isLoading s;
     error := v |}.

(** Sequencing of setter calls, in program order. *)
Definition andThen {A : Type} (f g : A -> A) : A -> A := fun s => g (f s).
Notation "f ;; g" := (andThen f g) (at level 61, left associativity).

(** ** The generation client, seen from [handleGenerate] *)

(** What a [catch] clause can receive: an [Error] carrying a message, or any
    other thrown value. *)
Inductive Thrown : Type :=
| ThrownError (message : string)
| ThrownOther.

(** How a promise settles. *)
Inductive Promise (A E : Type) : Type :=
| Resolved (value : A)
| Rejected (reason : E).
Arguments Resolved {A E} value.
Arguments Rejected {A E} reason.

(** How the promise of [generateReunificationImage] settles. *)
Definition Settled : Type := Promise string Thrown.

(** ** Handlers of [App] *)

(** [handleGenerate] up to its [await]: the state updates it enqueues, and the
    call to the client it issues, if any. *)
Definition handleGenerate_begin (s : AppState)
  : AppState * option (Photo * Photo) :=
  match childPhoto s, adultPhoto s with
  | Some c, Some a =>
      ((setIsLoading true ;; setError None ;; setGeneratedImage None) s,
       Some (c, a))
  | _, _ =>
      (setError (Some "Please upload both photos before generating.") s, None)
  end.

(** [handleGenerate] from the [await] on: [try] continuation or [catch], then
    [finally]. *)
Definition handleGenerate_settle (r : Settled) : AppState -> AppState :=
  match r with
  | Resolved resultBase64 =>
      setGeneratedImage (Some ("data:image/jpeg;base64," ++ resultBase64))
  | Rejected err =>
      let errorMessage :=
        match err with
        | ThrownError message => message
        | ThrownOther => "An unknown error occurred."
        end in
      setError (Some ("Failed to generate image: " ++ errorMessage))
  end ;; setIsLoading false.

(** The whole generate operation when nothing else happens while the request
    is in flight.  [client] tells how the call settles. *)
Definition handleGenerate (client : Photo -> Photo -> Settled) (s : AppState)
  : AppState :=
  match handleGenerate_begin s with
  | (s', Some (c, a)) => handleGenerate_settle (client c a) s'
  | (s', None) => s'
  end.

Definition handleStartOver : AppState -> AppState :=
  setChildPhoto None ;; setAdultPhoto None ;; setGeneratedImage None ;;
  setError None ;; setIsLoading false.

(** [handleDownload] only drives the DOM: it returns the link it clicks, if
    any, as (href, download), and leaves the state alone. *)
Definition handleDownload (s : AppState) : option (string * string) :=
  match generatedImage s with
  | Some (String c img) => Some (String c img, "rewindpix_reunion.jpeg")
  | _ => None
  end.

(** [const isGenerateDisabled = !childPhoto || !adultPhoto || isLoading] *)
Definition isGenerateDisabled (s : AppState) : bool :=
  negb (Js.present (childPhoto s)) || negb (Js.present (adultPhoto s))
  || isLoading s.

(** ** Base64 (RFC 4648), the encoding of the payload of a data URL

    The encoding is done by the browser, inside [readAsDataURL]; encoder and
    decoder are written out after RFC 4648, with padding. *)

Module Base64.

Definition alphabet : string :=
  "ABCDEFGHIJKLMNOPQRSTUVWXYZabcdefghijklmnopqrstuvwxyz0123456789+/".

Definition pad : ascii := "="%char.

(** The character of a 6-bit value. *)
Definition encodeSextet (v : N) : ascii :=
  match String.get (N.to_nat v) alphabet with
  | Some c => c
  | None => pad
  end.

Fixpoint indexIn (s : string) (c : ascii) : option N :=
  match s with
  | EmptyString => None
  | String d s' =>
      if Ascii.eqb d c then Some 0%N
      else option_map N.succ (indexIn s' c)
  end.

(** The 6-bit value of a character, if it is in the alphabet. *)
Definition decodeSextet (c : ascii) : option N := indexIn alphabet c.

(** The low eight bits of a number, as a byte. *)
Definition toByte (n : N) : byte :=
  match Byte.of_N (n mod 256) with
  | Some b => b
  | None => x00
  end.

Local Open Scope N_scope.

(** Three bytes give four characters; one or two trailing bytes give a
    padded group. *)
Fixpoint encode (bs : list byte) : string :=
  match bs with
  | [] => EmptyString
  | [a] =>
      let x := Byte.to_N a in
      String (encodeSextet (x / 4))
        (String (encodeSextet ((x mod 4) * 16))
           (String pad (String pad EmptyString)))
  | [a; b] =>
      let x := Byte.to_N a in
      let y := Byte.to_N b in
      String (encodeSextet (x / 4))
        (String (encodeSextet ((x mod 4) * 16 + y / 16))
           (String (encodeSextet ((y mod 16) * 4))
              (String pad EmptyString)))
  | a :: b :: c :: rest =>
      let x := Byte.to_N a in
      let y := Byte.to_N b in
      let z := Byte.to_N c in
      String (encodeSextet (x / 4))
        (String (encodeSextet ((x mod 4) * 16 + y / 16))
           (String (encodeSextet ((y mod 16) * 4 + z / 64))
              (String (encodeSextet (z mod 64)) (encode rest))))
  end.

(** Groups of four characters give three bytes; padding is accepted in the
    last group only. *)
Fixpoint decode (s : string) : option (list byte) :=
  match s with
  | EmptyString => Some []
  | String c1 (String c2 (String c3 (String c4 rest))) =>
      match decodeSextet c1, decodeSextet c2 with
      | Some v1, Some v2 =>
          let b1 := toByte (v1 * 4 + v2 / 16) in
          if Ascii.eqb c4 pad then
            match rest with
            | EmptyString =>
                if Ascii.eqb c3 pad then Some [b1]
                else
                  match decodeSextet c3 with
                  | Some v3 => Some [b1; toByte ((v2 mod 16) * 16 + v3 / 4)]
                  | None => None
                  end
            | String _ _ => None
            end
          else
            match decodeSextet c3, decodeSextet c4, decode rest with
            | Some v3, Some v4, Some tl =>
                Some (b1 :: toByte ((v2 mod 16) * 16 + v3 / 4)
                         :: toByte ((v3 mod 4) * 64 + v4) :: tl)
            | _, _, _ => None
            end
      | _, _ => None
      end
  | _ => None
  end.

(** Neither the padding nor a delimiter of a data URL. *)
Definition plain (c : ascii) : bool :=
  negb (Ascii.eqb c pad) && negb (Ascii.eqb c ",") && negb (Ascii.eqb c ":").

End Base64.

(** ** Files and the browser's [FileReader] *)

(** A [File]: its name, its declared media type, and its content. *)
Record File : Type := mkFile {
  name : string;
  type : string;
  bytes : list byte
}.

(** The data URL that [FileReader.readAsDataURL] builds for a file that it
    could read (File API, RFC 2397): the declared type, the base64 marker, a
    comma, and the content in base64.  A file without a declared type is
    labelled as a stream of bytes. *)
Definition readAsDataURL (file : File) : string :=
  "data:"
  ++ match type file with
     | EmptyString => "application/octet-stream"
     | t => t
     end
  ++ ";base64," ++ Base64.encode (bytes file).

(** The event with which a reader finishes: [onload], with [reader.result],
    or [onerror]. *)
Inductive ReaderEvent : Type :=
| OnLoad (result : string)
| OnError.

(** The events a reader can fire for [file]. *)
Definition firesFor (file : File) (ev : ReaderEvent) : Prop :=
  ev = OnLoad (readAsDataURL file) \/ ev = OnError.

(** ** Upload handlers of [App] *)

(** The promise of [fileToPhotoState], given the event its reader fires. *)
Definition fileToPhotoState (file : File) (ev : ReaderEvent)
  : Promise PhotoState unit :=
  match ev with
  | OnLoad base64String =>
      Resolved (Some {| base64Data := nth_error (Js.split "," base64String) 1;
                        mimeType := type file |})
  | OnError => Rejected tt
  end.

(** [handleChildPhotoUpload] from its [await] on. *)
Definition handleChildPhotoUpload (file : File) (ev : ReaderEvent)
  : AppState -> AppState :=
  match fileToPhotoState file ev with
  | Resolved photoState => setChildPhoto photoState
  | Rejected _ => setError (Some "Failed to read child photo.")
  end.

(** [handleAdultPhotoUpload] from its [await] on. *)
Definition handleAdultPhotoUpload (file : File) (ev : ReaderEvent)
  : AppState -> AppState :=
  match fileToPhotoState file ev with
  | Resolved photoState => setAdultPhoto photoState
  | Rejected _ => setError (Some "Failed to read adult photo.")
  end.

(** ** [ImageUploader] *)

Record UploaderState : Type := mkUploaderState {
  imagePreview : option string;
  fileName : string
}.

Definition initialUploader : UploaderState :=
  {| imagePreview := None; fileName := EmptyString |}.

(** What [handleFileChange] does besides updating its own state. *)
Inductive UploaderEffect : Type :=
| Alert (message : string)
| ReadPreview (file : File)
| OnImageUpload (file : File).

(** [handleFileChange], given the files of the event ([files?.[0]] is the head
    of the list, if any). *)
Definition handleFileChange (files : list File) (u : UploaderState)
  : UploaderState * list UploaderEffect :=
  match files with
  | file :: _ =>
      if Js.startsWith (type file) "image/" then
        ({| imagePreview := imagePreview u; fileName := name file |},
         [ReadPreview file; OnImageUpload file])
      else
        (u, [Alert "Please select a valid image file."])
  | [] => (u, [])
  end.

(** The [onloadend] callback of the preview reader. *)
Definition handlePreviewLoadEnd (result : option string) (u : UploaderState)
  : UploaderState :=
  {| imagePreview := result; fileName := fileName u |}.


(** ** The application as a transition system *)

(** The two uploaders that [App] renders, by the handler each one is given
    as [onImageUpload]. *)
Inductive Slot : Type := ChildSlot | AdultSlot.

Definition onImageUpload (slot : Slot)
  : File -> ReaderEvent -> AppState -> AppState :=
  match slot with
  | ChildSlot => handleChildPhotoUpload
  | AdultSlot => handleAdultPhotoUpload
  end.

Definition photoIn (slot : Slot) (s : AppState) : PhotoState :=
  match slot with
  | ChildSlot => childPhoto s
  | AdultSlot => adultPhoto s
  end.

(** The state hooks together with the asynchronous work in flight: the files
    being read for a slot and the number of pending calls to the client. *)
Record System : Type := mkSystem {
  app : AppState;
  reading : list (Slot * File);
  generating : nat
}.

Definition initialSystem : System :=
  {| app := initialState; reading := []; generating := 0 |}.

(** [!generatedImage && !isLoading]: the uploaders and the generate button
    are rendered. *)
Definition showsUploads (s : AppState) : bool :=
  negb (Js.truthy (generatedImage s)) && negb (isLoading s).

(** [generatedImage && !isLoading]: the result and its two buttons are
    rendered. *)
Definition showsResult (s : AppState) : bool :=
  Js.truthy (generatedImage s) && negb (isLoading s).

(** [isLoading && ...]: the spinner is rendered. *)
Definition showsSpinner (s : AppState) : bool := isLoading s.

(** [error && ...]: the error banner is rendered. *)
Definition showsError (s : AppState) : bool := Js.truthy (error s).

(** The files that a run of [handleFileChange] passes to [onImageUpload]. *)
Fixpoint uploadsOf (slot : Slot) (effects : list UploaderEffect)
  : list (Slot * File) :=
  match effects with
  | [] => []
  | OnImageUpload file :: rest => (slot, file) :: uploadsOf slot rest
  | _ :: rest => uploadsOf slot rest
  end.

(** A change or drop event on the uploader of [slot]: [handleFileChange]
    runs, and each file it hands to [onImageUpload] starts being read. *)
Definition selectFiles (slot : Slot) (files : list File) (u : UploaderState)
  (sys : System) : System :=
  {| app := app sys;
     reading := (reading sys
                 ++ uploadsOf slot (snd (handleFileChange files u)))%list;
     generating := generating sys |}.

(** The reader of [fileToPhotoState] fires [ev] for a file that is being read
    for [slot]; [before] and [after] are the other pending reads. *)
Definition finishRead (slot : Slot) (file : File) (ev : ReaderEvent)
  (before after : list (Slot * File)) (sys : System) : System :=
  {| app := onImageUpload slot file ev (app sys);
     reading := (before ++ after)%list;
     generating := generating sys |}.

(** A click on the generate button. *)
Definition clickGenerate (sys : System) : System :=
  {| app := fst (handleGenerate_begin (app sys));
     reading := reading sys;
     generating :=
       generating sys
       + match snd (handleGenerate_begin (app sys)) with
         | Some _ => 1
         | None => 0
         end |}.

(** A pending call to the client settles, leaving [n] pending. *)
Definition settleGenerate (r : Settled) (n : nat) (sys : System) : System :=
  {| app := handleGenerate_settle r (app sys);
     reading := reading sys;
     generating := n |}.

(** A click on "Create Another". *)
Definition clickStartOver (sys : System) : System :=
  {| app := handleStartOver (app sys);
     reading := reading sys;
     generating := generating sys |}.

(** One completed handler step.  Events of the user need the element they
    act on to be rendered, and the button to be enabled; a promise settles
    whenever it is pending. *)
Inductive step : System -> System -> Prop :=
| step_select (sys : System) (slot : Slot) (files : list File)
    (u : UploaderState) :
    showsUploads (app sys) = true ->
    step sys (selectFiles slot files u sys)
| step_read (sys : System) (slot : Slot) (file : File) (ev : ReaderEvent)
    (before after : list (Slot * File)) :
    reading sys = (before ++ (slot, file) :: after)%list ->
    firesFor file ev ->
    step sys (finishRead slot file ev before after sys)
| step_generate (sys : System) :
    showsUploads (app sys) = true ->
    isGenerateDisabled (app sys) = false ->
    step sys (clickGenerate sys)
| step_settle (sys : System) (n : nat) (r : Settled) :
    generating sys = S n ->
    step sys (settleGenerate r n sys)
| step_start_over (sys : System) :
    showsResult (app sys) = true ->
    step sys (clickStartOver sys)
| step_download (sys : System) :
    showsResult (app sys) = true ->
    step sys sys.

(** The states between completed handler steps. *)
Inductive reachable : System -> Prop :=
| reachable_initial : reachable initialSystem
| reachable_step (sys sys' : System) :
    reachable sys -> step sys sys' -> reachable sys'.

(** ** Vocabulary of the properties *)

(** A data-URL prefix is the header of a data URL: the scheme, a media type
    with its parameters, and the comma that ends it (RFC 2397). *)
Definition containsDataUrlPrefix (s : string) : Prop :=
  exists before header after,
    s = before ++ "data:" ++ header ++ "," ++ after.

(** A declared type that passes the capture guard and is free of the
    separator of a data URL, as every media type is (RFC 2045 excludes the
    comma from type and subtype names). *)
Definition validImageType (t : string) : bool :=
  Js.startsWith t "image/" && negb (Js.hasChar "," t).

(** The invariant of [AppState] on its loading flag and its result. *)
Definition loadingExcludesResult (s : AppState) : Prop :=
  ~ (isLoading s = true /\ Js.truthy (generatedImage s) = true).

(** A photo as [fileToPhotoState] builds it from a file that passed the
    guard of [handleFileChange] and was read. *)
Definition photoOf (file : File) : Photo :=
  {| base64Data := nth_error (Js.split "," (readAsDataURL file)) 1;
     mimeType := type file |}.

Definition fromAcceptedFile (p : Photo) : Prop :=
  exists file, Js.startsWith (type file) "image/" = true /\ p = photoOf file.

(** Every pending read is of a file that passed the guard, and so is every
    stored photo. *)
Definition uploadsAccepted (sys : System) : Prop :=
  Forall (fun sf => Js.startsWith (type (snd sf)) "image/" = true)
    (reading sys)
  /\ forall slot p, photoIn slot (app sys) = Some p -> fromAcceptedFile p.

(** At most one call to the client is pending; [isLoading] tells whether one
    is, and no result is kept while one is. *)
Definition loadingTracksClient (sys : System) : Prop :=
  generating sys <= 1
  /\ (generating sys = 1 <-> isLoading (app sys) = true)
  /\ (isLoading (app sys) = true -> generatedImage (app sys) = None).

(** The messages that the handlers reachable from the page store in
    [error]. *)
Definition knownError (e : string) : Prop :=
  e = "Failed to read child photo."
  \/ e = "Failed to read adult photo."
  \/ exists m, e = "Failed to generate image: " ++ m.

(** The result, when there is one, is a JPEG data URL, and the error, when
    there is one, is a known message. *)
Definition messagesWellFormed (sys : System) : Prop :=
  (forall g, generatedImage (app sys) = Some g ->
             exists S, g = "data:image/jpeg;base64," ++ S)
  /\ (forall e, error (app sys) = Some e -> knownError e).

(** ** A session *)

Definition childPng : File :=
  mkFile "child.png" "image/png" [x89; x50; x4e; x47; x0d; x0a; x1a; x0a].

Definition adultJpeg : File :=
  mkFile "today.jpg" "image/jpeg" [xff; xd8; xff; xe0; x00; x10; x4a].

Definition oldGif : File :=
  mkFile "old.gif" "image/gif" [x47; x49; x46; x38; x39; x61].

Definition notes : File :=
  mkFile "notes.txt" "text/plain" [x68; x69].

(** The first photo was read; the second was chosen and is being read. *)
Definition sessionPending : System :=
  selectFiles AdultSlot [adultJpeg] initialUploader
    (finishRead ChildSlot childPng (OnLoad (readAsDataURL childPng)) [] []
       (selectFiles ChildSlot [childPng] initialUploader initialSystem)).

(** Both photos were chosen and read. *)
Definition sessionReady : System :=
  finishRead AdultSlot adultJpeg (OnLoad (readAsDataURL adultJpeg)) [] []
    (selectFiles AdultSlot [adultJpeg] initialUploader
       (finishRead ChildSlot childPng (OnLoad (readAsDataURL childPng)) [] []
          (selectFiles ChildSlot [childPng] initialUploader initialSystem))).

(** The button was clicked and the request is in flight. *)
Definition sessionLoading : System := clickGenerate sessionReady.

(** The service answered. *)
Definition sessionResult : System :=
  settleGenerate (Resolved "abc123==") 0 sessionLoading.

(** The service failed instead. *)
Definition sessionFailed : System :=
  settleGenerate (Rejected (ThrownError "quota exceeded")) 0 sessionLoading.

(** A GIF was dropped on the first uploader and read. *)
Definition sessionGif : System :=
  finishRead ChildSlot oldGif (OnLoad (readAsDataURL oldGif)) [] []
    (selectFiles ChildSlot [oldGif] initialUploader initialSystem).

(** ** Proof steps *)

(** Arithmetic with division and remainder by constants. *)
Ltac arith := zify; Z.to_euclidean_division_equations; lia.

(** Replays a session: each system is the result of one step on the one
    before. *)
Ltac replay :=
  lazymatch goal with
  | |- reachable initialSystem => apply reachable_initial
  | |- reachable (selectFiles ?slot ?files ?u ?sys) =>
      apply (reachable_step sys);
      [replay | apply step_select; reflexivity]
  | |- reachable (finishRead ?slot ?file ?ev ?before ?after ?sys) =>
      apply (reachable_step sys);
      [replay
      | apply step_read;
        [reflexivity | first [left; reflexivity | right; reflexivity]]]
  | |- reachable (clickGenerate ?sys) =>
      apply (reachable_step sys);
      [replay | apply step_generate; reflexivity]
  | |- reachable (settleGenerate ?r ?n ?sys) =>
      apply (reachable_step sys);
      [replay | apply step_settle; reflexivity]
  | |- reachable (clickStartOver ?sys) =>
      apply (reachable_step sys);
      [replay | apply step_start_over; reflexivity]
  end.

(** ** Facts on the string operations *)

Module JsFacts.
Import Js.

Lemma startsWith_app (p s : string) : startsWith (p ++ s) p = true.
Proof.
  induction p as [|c p IH]; simpl.
  - reflexivity.
  - now rewrite Ascii.eqb_refl, IH.
Qed.

Lemma includes_startsWith (s m : string) :
  startsWith s m = true -> includes s m = true.
Proof.
  intros H. destruct s; simpl; now rewrite H.
Qed.

Lemma includes_app (a m b : string) : includes (a ++ m ++ b) m = true.
Proof.
  induction a as [|c a IH].
  - cbn [append]. apply includes_startsWith, startsWith_app.
  - simpl. rewrite IH. apply orb_true_r.
Qed.

Lemma includes_suffix (a m : string) : includes (a ++ m) m = true.
Proof.
  replace m with (m ++ EmptyString) at 1
    by (induction m; simpl; congruence).
  apply includes_app.
Qed.

Lemma hasChar_app (c : ascii) (a b : string) :
  hasChar c (a ++ b) = hasChar c a || hasChar c b.
Proof.
  induction a as [|d a IH]; simpl.
  - reflexivity.
  - now rewrite IH, orb_assoc.
Qed.

(** No piece of a split contains the separator. *)
Lemma split_pieces (sep : ascii) (s piece : string) :
  In piece (split sep s) -> hasChar sep piece = false.
Proof.
  revert piece. induction s as [|c s IH]; simpl; intros piece H.
  - destruct H as [<- | []]. reflexivity.
  - destruct (Ascii.eqb c sep) eqn:E.
    + destruct H as [<- | H]; [reflexivity | now apply IH].
    + destruct (split sep s) as [|h t].
      * destruct H as [<- | []]. simpl. now rewrite E.
      * destruct H as [<- | H].
        -- simpl. rewrite E. apply IH. now left.
        -- apply IH. now right.
Qed.

Lemma split_nonempty (sep : ascii) (s : string) : split sep s <> [].
Proof.
  destruct s as [|c s]; simpl; [discriminate|].
  destruct (Ascii.eqb c sep); [discriminate|].
  destruct (split sep s); discriminate.
Qed.

(** A string without the separator is one piece. *)
Lemma split_single (sep : ascii) (s : string) :
  hasChar sep s = false -> split sep s = [s].
Proof.
  induction s as [|c s IH]; simpl; intros H.
  - reflexivity.
  - apply orb_false_iff in H as [E H]. rewrite E, (IH H). reflexivity.
Qed.

(** Splitting at the first separator. *)
Lemma split_first (sep : ascii) (a b : string) :
  hasChar sep a = false ->
  split sep (a ++ String sep b) = a :: split sep b.
Proof.
  induction a as [|c a IH]; simpl; intros H.
  - now rewrite Ascii.eqb_refl.
  - apply orb_false_iff in H as [E H]. rewrite E, (IH H). reflexivity.
Qed.

(** A string with a separator has a piece at index 1. *)
Lemma split_second (sep : ascii) (s : string) :
  hasChar sep s = true -> exists piece, nth_error (split sep s) 1 = Some piece.
Proof.
  induction s as [|c s IH]; simpl; intros H.
  - discriminate.
  - destruct (Ascii.eqb c sep) eqn:E.
    + pose proof (split_nonempty sep s) as N.
      destruct (split sep s) as [|h t]; [contradiction|].
      exists h. reflexivity.
    + simpl in H. destruct (IH H) as [piece Hp].
      destruct (split sep s) as [|h t]; [discriminate|].
      exists piece. exact Hp.
Qed.

(** A string without a comma holds no header of a data URL. *)
Lemma no_comma_no_prefix (s : string) :
  hasChar "," s = false -> ~ containsDataUrlPrefix s.
Proof.
  intros H (before & header & after & ->).
  rewrite !hasChar_app in H. simpl in H.
  rewrite !orb_true_r in H. discriminate.
Qed.

End JsFacts.

(** ** Facts on base64 *)

Module Base64Facts.
Import Base64.
Local Open Scope N_scope.

(** A property checked on the 64 values holds of every 6-bit value. *)
Lemma sextet_cases (P : N -> bool) :
  forallb P (map N.of_nat (seq 0 64)) = true ->
  forall v, v < 64 -> P v = true.
Proof.
  intros H v Hv. rewrite forallb_forall in H. apply H.
  apply in_map_iff. exists (N.to_nat v). split.
  - apply N2Nat.id.
  - apply in_seq. lia.
Qed.

Lemma decode_encodeSextet (v : N) :
  v < 64 -> decodeSextet (encodeSextet v) = Some v.
Proof.
  intros Hv.
  pose (P := fun v =>
    match decodeSextet (encodeSextet v) with
    | Some w => N.eqb w v
    | None => false
    end).
  assert (H : P v = true) by (apply sextet_cases; [vm_compute; reflexivity | exact Hv]).
  unfold P in H. destruct (decodeSextet (encodeSextet v)) as [w|]; [|discriminate].
  apply N.eqb_eq in H. now subst.
Qed.

Lemma encodeSextet_plain (v : N) : v < 64 -> plain (encodeSextet v) = true.
Proof.
  apply (sextet_cases (fun v => plain (encodeSextet v))). vm_compute. reflexivity.
Qed.

Lemma encodeSextet_not_pad (v : N) :
  v < 64 -> Ascii.eqb (encodeSextet v) pad = false.
Proof.
  intros Hv. pose proof (encodeSextet_plain v Hv) as H. unfold plain in H.
  apply andb_true_iff in H as [H _]. apply andb_true_iff in H as [H _].
  now apply negb_true_iff.
Qed.

Lemma toByte_to_N (b : byte) : toByte (Byte.to_N b) = b.
Proof.
  unfold toByte. pose proof (Byte.to_N_bounded b).
  rewrite N.mod_small by lia. now rewrite Byte.of_to_N.
Qed.

Lemma toByte_eq (n : N) (b : byte) : n = Byte.to_N b -> toByte n = b.
Proof. intros ->. apply toByte_to_N. Qed.

(** The equation of [decode] on a group without padding. *)
Lemma decode_group (v1 v2 v3 v4 : N) (rest : string) :
  v1 < 64 -> v2 < 64 -> v3 < 64 -> v4 < 64 ->
  decode (String (encodeSextet v1) (String (encodeSextet v2)
            (String (encodeSextet v3) (String (encodeSextet v4) rest)))) =
  option_map
    (fun tl => toByte (v1 * 4 + v2 / 16)
               :: toByte ((v2 mod 16) * 16 + v3 / 4)
               :: toByte ((v3 mod 4) * 64 + v4) :: tl)
    (decode rest).
Proof.
  intros H1 H2 H3 H4. cbn [decode].
  rewrite !decode_encodeSextet by assumption.
  rewrite (encodeSextet_not_pad v4 H4).
  destruct (decode rest); reflexivity.
Qed.

Lemma list_ind3 {A : Type} (P : list A -> Prop) :
  P [] -> (forall a, P [a]) -> (forall a b, P [a; b]) ->
  (forall a b c l, P l -> P (a :: b :: c :: l)) ->
  forall l, P l.
Proof.
  intros H0 H1 H2 H3.
  fix IH 1. intros [|a [|b [|c l]]].
  - exact H0.
  - apply H1.
  - apply H2.
  - apply H3, IH.
Qed.

(** Decoding undoes encoding. *)
Lemma decode_encode (bs : list byte) : decode (encode bs) = Some bs.
Proof.
  induction bs as [|a|a b|a b c l IH] using list_ind3.
  - reflexivity.
  - pose proof (Byte.to_N_bounded a). cbn [encode decode].
    rewrite !decode_encodeSextet by arith.
    rewrite !Ascii.eqb_refl. f_equal. f_equal. apply toByte_eq. arith.
  - pose proof (Byte.to_N_bounded a). pose proof (Byte.to_N_bounded b).
    cbn [encode decode].
    rewrite !decode_encodeSextet by arith.
    rewrite Ascii.eqb_refl, encodeSextet_not_pad by arith.
    f_equal. f_equal; [|f_equal]; apply toByte_eq; arith.
  - pose proof (Byte.to_N_bounded a). pose proof (Byte.to_N_bounded b).
    pose proof (Byte.to_N_bounded c).
    cbn [encode]. rewrite decode_group by arith. rewrite IH. cbn [option_map].
    f_equal. f_equal; [|f_equal; [|f_equal]]; apply toByte_eq; arith.
Qed.

End Base64Facts.

(** ** The generate button and [handleGenerate] *)

(** C1: the "Generate Reunion" button is disabled exactly when [childPhoto] is
    absent, or [adultPhoto] is absent, or [isLoading] is true; it is enabled
    exactly when both slots are filled and nothing is loading. *)
Theorem generate_disabled_iff (s : AppState) :
  (isGenerateDisabled s = true <->
     childPhoto s = None \/ adultPhoto s = None \/ isLoading s = true)
  /\ (isGenerateDisabled s = false <->
        childPhoto s <> None /\ adultPhoto s <> None /\ isLoading s = false).
Proof.
  unfold isGenerateDisabled.
  destruct (childPhoto s) as [c|], (adultPhoto s) as [a|], (isLoading s);
    cbn; repeat split; intros; intuition congruence.
Qed.

(** The eight combinations of the two slots and the loading flag, one by
    one. *)
Example generate_disabled_table (c a : Photo) (g e : option string) :
  map isGenerateDisabled
    [ mkAppState None None g false e;
      mkAppState None None g true e;
      mkAppState (Some c) None g false e;
      mkAppState (Some c) None g true e;
      mkAppState None (Some a) g false e;
      mkAppState None (Some a) g true e;
      mkAppState (Some c) (Some a) g true e;
      mkAppState (Some c) (Some a) g false e ]
  = [true; true; true; true; true; true; true; false].
Proof. reflexivity. Qed.

(** C2: with both photos present, the part of [handleGenerate] that runs with
    the click leaves [isLoading] true, [error] null and [generatedImage] null,
    whatever they were, keeps the two photo slots, and calls the client with
    the two photos. *)
Theorem generate_starts_loading (s : AppState) (c a : Photo) :
  childPhoto s = Some c ->
  adultPhoto s = Some a ->
  let s' := fst (handleGenerate_begin s) in
  isLoading s' = true /\ error s' = None /\ generatedImage s' = None
  /\ childPhoto s' = childPhoto s /\ adultPhoto s' = adultPhoto s
  /\ snd (handleGenerate_begin s) = Some (c, a).
Proof.
  intros Hc Ha. unfold handleGenerate_begin. rewrite Hc, Ha. cbn.
  repeat split; assumption.
Qed.

Lemma generate_starts_loading_witness :
  let s := mkAppState (Some (mkPhoto (Some "AAAA") "image/png"))
                      (Some (mkPhoto (Some "BBBB") "image/jpeg"))
                      (Some "data:image/jpeg;base64,old") false
                      (Some "Failed to generate image: boom") in
  let s' := fst (handleGenerate_begin s) in
  isLoading s' = true /\ error s' = None /\ generatedImage s' = None
  /\ childPhoto s' = childPhoto s /\ adultPhoto s' = adultPhoto s
  /\ snd (handleGenerate_begin s)
     = Some (mkPhoto (Some "AAAA") "image/png",
             mkPhoto (Some "BBBB") "image/jpeg").
Proof.
  intros s.
  apply (generate_starts_loading s (mkPhoto (Some "AAAA") "image/png")
           (mkPhoto (Some "BBBB") "image/jpeg")); reflexivity.
Defined.

(** When the promise resolves, whatever the state then is. *)
Lemma settle_resolved (S : string) (mid : AppState) :
  handleGenerate_settle (Resolved S) mid =
  {| childPhoto := childPhoto mid; adultPhoto := adultPhoto mid;
     generatedImage := Some ("data:image/jpeg;base64," ++ S);
     isLoading := false; error := error mid |}.
Proof. reflexivity. Qed.

(** When the promise rejects with an [Error], whatever the state then is. *)
Lemma settle_rejected (M : string) (mid : AppState) :
  handleGenerate_settle (Rejected (ThrownError M)) mid =
  {| childPhoto := childPhoto mid; adultPhoto := adultPhoto mid;
     generatedImage := generatedImage mid;
     isLoading := false;
     error := Some ("Failed to generate image: " ++ M) |}.
Proof. reflexivity. Qed.

(** C3: if the client resolves with the base64 string [S], the state after
    the generate operation has [generatedImage] equal to
    ["data:image/jpeg;base64,"] followed by [S], and [isLoading] false. *)
Theorem generate_success (client : Photo -> Photo -> Settled) (s : AppState)
  (c a : Photo) (S : string) :
  childPhoto s = Some c ->
  adultPhoto s = Some a ->
  client c a = Resolved S ->
  generatedImage (handleGenerate client s)
  = Some ("data:image/jpeg;base64," ++ S)
  /\ isLoading (handleGenerate client s) = false.
Proof.
  intros Hc Ha HS. unfold handleGenerate, handleGenerate_begin.
  rewrite Hc, Ha, HS, settle_resolved. split; reflexivity.
Qed.

Lemma generate_success_witness :
  let s := mkAppState (Some (mkPhoto (Some "AAAA") "image/png"))
                      (Some (mkPhoto (Some "BBBB") "image/jpeg"))
                      None false None in
  generatedImage (handleGenerate (fun _ _ => Resolved "abc123==") s)
  = Some "data:image/jpeg;base64,abc123=="
  /\ isLoading (handleGenerate (fun _ _ => Resolved "abc123==") s) = false.
Proof.
  intros s.
  apply (generate_success (fun _ _ => Resolved "abc123==") s
           (mkPhoto (Some "AAAA") "image/png")
           (mkPhoto (Some "BBBB") "image/jpeg") "abc123=="); reflexivity.
Defined.

(** C4: if the client rejects with an error of message [M], the state after
    the generate operation has an [error] that contains [M], [isLoading]
    false, and [generatedImage] null. *)
Theorem generate_failure (client : Photo -> Photo -> Settled) (s : AppState)
  (c a : Photo) (M : string) :
  childPhoto s = Some c ->
  adultPhoto s = Some a ->
  client c a = Rejected (ThrownError M) ->
  error (handleGenerate client s) = Some ("Failed to generate image: " ++ M)
  /\ Js.includes ("Failed to generate image: " ++ M) M = true
  /\ isLoading (handleGenerate client s) = false
  /\ generatedImage (handleGenerate client s) = None.
Proof.
  intros Hc Ha HM. unfold handleGenerate, handleGenerate_begin.
  rewrite Hc, Ha, HM, settle_rejected.
  split; [reflexivity|].
  split; [apply JsFacts.includes_suffix|].
  split; reflexivity.
Qed.

Lemma generate_failure_witness :
  let s := mkAppState (Some (mkPhoto (Some "AAAA") "image/png"))
                      (Some (mkPhoto (Some "BBBB") "image/jpeg"))
                      (Some "data:image/jpeg;base64,old") false None in
  let client := fun (_ _ : Photo) =>
    Rejected (A := string) (ThrownError "quota exceeded") in
  error (handleGenerate client s)
  = Some "Failed to generate image: quota exceeded"
  /\ Js.includes "Failed to generate image: quota exceeded" "quota exceeded"
     = true
  /\ isLoading (handleGenerate client s) = false
  /\ generatedImage (handleGenerate client s) = None.
Proof.
  intros s client.
  apply (generate_failure client s
           (mkPhoto (Some "AAAA") "image/png")
           (mkPhoto (Some "BBBB") "image/jpeg") "quota exceeded"); reflexivity.
Defined.

(** A value thrown that is not an [Error] is reported without its content. *)
Example unknown_error_message (mid : AppState) :
  error (handleGenerate_settle (Rejected ThrownOther) mid)
  = Some "Failed to generate image: An unknown error occurred.".
Proof. reflexivity. Qed.

(** C5: from every state, "start over" gives the initial state of the
    application: both photos, the result and the error null, not loading. *)
Theorem start_over_resets (s : AppState) :
  handleStartOver s = initialState
  /\ childPhoto (handleStartOver s) = None
  /\ adultPhoto (handleStartOver s) = None
  /\ generatedImage (handleStartOver s) = None
  /\ error (handleStartOver s) = None
  /\ isLoading (handleStartOver s) = false.
Proof. repeat split. Qed.

(** C10: invoked while a photo is absent, [handleGenerate] sets the error
    ['Please upload both photos before generating.'], calls no client, and
    leaves [isLoading], both photos and [generatedImage] as they were. *)
Theorem generate_guard (client : Photo -> Photo -> Settled) (s : AppState) :
  childPhoto s = None \/ adultPhoto s = None ->
  handleGenerate_begin s
  = (setError (Some "Please upload both photos before generating.") s, None)
  /\ handleGenerate client s
     = {| childPhoto := childPhoto s; adultPhoto := adultPhoto s;
          generatedImage := generatedImage s; isLoading := isLoading s;
          error := Some "Please upload both photos before generating." |}.
Proof.
  intros H. unfold handleGenerate, handleGenerate_begin.
  destruct (childPhoto s) as [c|] eqn:Hc, (adultPhoto s) as [a|] eqn:Ha;
    try (destruct H; discriminate);
    unfold setError; rewrite ?Hc, ?Ha; split; reflexivity.
Qed.

Lemma generate_guard_witness :
  let s := mkAppState (Some (mkPhoto (Some "AAAA") "image/png")) None
                      (Some "data:image/jpeg;base64,old") false None in
  handleGenerate_begin s
  = (setError (Some "Please upload both photos before generating.") s, None)
  /\ handleGenerate (fun _ _ => Resolved "abc123==") s
     = mkAppState (Some (mkPhoto (Some "AAAA") "image/png")) None
                  (Some "data:image/jpeg;base64,old") false
                  (Some "Please upload both photos before generating.").
Proof.
  intros s.
  apply (generate_guard (fun _ _ => Resolved "abc123==") s).
  right. reflexivity.
Defined.

(** ** Reading a file as a data URL *)

Module ReaderFacts.
Import Js JsFacts Base64 Base64Facts.

Lemma append_assoc (a b c : string) : (a ++ b) ++ c = a ++ b ++ c.
Proof.
  induction a as [|d a IH]; simpl; congruence.
Qed.

(** [encode] writes characters of the alphabet and padding only. *)
Lemma encode_avoids (c : ascii) (bs : list byte) :
  Ascii.eqb pad c = false ->
  (forall v, (v < 64)%N -> Ascii.eqb (encodeSextet v) c = false) ->
  hasChar c (encode bs) = false.
Proof.
  intros Hp Hs.
  induction bs as [|x|x y|x y z l IH] using list_ind3.
  - reflexivity.
  - pose proof (Byte.to_N_bounded x).
    cbn [encode hasChar]. rewrite !Hs, Hp by arith. reflexivity.
  - pose proof (Byte.to_N_bounded x). pose proof (Byte.to_N_bounded y).
    cbn [encode hasChar]. rewrite !Hs, Hp by arith. reflexivity.
  - pose proof (Byte.to_N_bounded x). pose proof (Byte.to_N_bounded y).
    pose proof (Byte.to_N_bounded z).
    cbn [encode hasChar]. rewrite !Hs, IH by arith. reflexivity.
Qed.

Lemma encode_no_comma (bs : list byte) : hasChar "," (encode bs) = false.
Proof.
  apply encode_avoids; [reflexivity|]. intros v Hv.
  pose proof (encodeSextet_plain v Hv) as H. unfold plain in H.
  apply andb_true_iff in H as [H _]. apply andb_true_iff in H as [_ H].
  now apply negb_true_iff.
Qed.

Lemma encode_no_colon (bs : list byte) : hasChar ":" (encode bs) = false.
Proof.
  apply encode_avoids; [reflexivity|]. intros v Hv.
  pose proof (encodeSextet_plain v Hv) as H. unfold plain in H.
  apply andb_true_iff in H as [_ H].
  now apply negb_true_iff.
Qed.

(** The characters of a prefix occur in the string. *)
Lemma startsWith_hasChar (c : ascii) (s p : string) :
  startsWith s p = true -> hasChar c p = true -> hasChar c s = true.
Proof.
  revert s. induction p as [|d p IH]; intros s Hs Hp.
  - discriminate.
  - destruct s as [|e s]; [discriminate|]. cbn in Hs, Hp |- *.
    apply andb_true_iff in Hs as [Hed Hs].
    apply Ascii.eqb_eq in Hed. subst e.
    destruct (Ascii.eqb d c); [reflexivity|]. cbn in Hp |- *.
    now apply IH.
Qed.

(** A string without a colon does not start with the scheme of a data
    URL. *)
Lemma no_colon_no_scheme (s : string) :
  hasChar ":" s = false -> startsWith s "data:" = false.
Proof.
  intros H. destruct (startsWith s "data:") eqn:E; [|reflexivity].
  rewrite (startsWith_hasChar ":" s "data:" E) in H by reflexivity.
  discriminate.
Qed.

(** Every data URL has a comma, so [split(',')[1]] exists. *)
Lemma readAsDataURL_comma (file : File) :
  hasChar "," (readAsDataURL file) = true.
Proof.
  unfold readAsDataURL. rewrite !hasChar_app. cbn.
  rewrite !orb_true_r. reflexivity.
Qed.

Lemma photoOf_base64Data (file : File) :
  exists b, base64Data (photoOf file) = Some b /\ hasChar "," b = false.
Proof.
  destruct (split_second "," _ (readAsDataURL_comma file)) as [b Hb].
  exists b. split; [exact Hb|].
  apply (split_pieces "," (readAsDataURL file)).
  eapply nth_error_In, Hb.
Qed.

(** With a declared type free of commas, the pieces of the data URL are its
    header and the content in base64. *)
Lemma readAsDataURL_split (file : File) :
  hasChar "," (type file) = false ->
  nth_error (split "," (readAsDataURL file)) 1
  = Some (encode (bytes file)).
Proof.
  intros H. unfold readAsDataURL.
  set (t := match type file with EmptyString => _ | _ => _ end).
  assert (Ht : hasChar "," t = false).
  { subst t. destruct (type file); [reflexivity | exact H]. }
  replace ("data:" ++ t ++ ";base64," ++ encode (bytes file))
    with (("data:" ++ t ++ ";base64") ++ String "," (encode (bytes file))).
  - rewrite split_first.
    + rewrite split_single by apply encode_no_comma. reflexivity.
    + rewrite !hasChar_app, Ht. reflexivity.
  - rewrite !append_assoc. reflexivity.
Qed.

End ReaderFacts.

(** ** Invariants of the transition system *)

Module SystemFacts.
Import Js JsFacts ReaderFacts.

(** [handleFileChange] hands over only files that pass its guard. *)
Lemma uploadsOf_accepted (slot : Slot) (files : list File) (u : UploaderState) :
  Forall (fun sf => startsWith (type (snd sf)) "image/" = true)
    (uploadsOf slot (snd (handleFileChange files u))).
Proof.
  destruct files as [|file rest]; unfold handleFileChange.
  - constructor.
  - destruct (startsWith (type file) "image/") eqn:E; cbn [snd uploadsOf].
    + constructor; [exact E | constructor].
    + constructor.
Qed.

(** What a finished read does to the fields of the state. *)
Lemma onImageUpload_fields (slot : Slot) (file : File) (ev : ReaderEvent)
  (s : AppState) :
  isLoading (onImageUpload slot file ev s) = isLoading s
  /\ generatedImage (onImageUpload slot file ev s) = generatedImage s.
Proof.
  destruct slot, ev; split; reflexivity.
Qed.

Lemma onImageUpload_photo (slot slot' : Slot) (file : File) (ev : ReaderEvent)
  (s : AppState) (p : Photo) :
  firesFor file ev ->
  photoIn slot' (onImageUpload slot file ev s) = Some p ->
  p = photoOf file \/ photoIn slot' s = Some p.
Proof.
  intros [-> | ->] H; destruct slot, slot';
    unfold onImageUpload, handleChildPhotoUpload, handleAdultPhotoUpload,
      fileToPhotoState, photoIn in H;
    cbn [childPhoto adultPhoto setChildPhoto setAdultPhoto setError] in H;
    solve [ right; exact H | left; injection H as <-; reflexivity ].
Qed.

Lemma begin_photo (slot : Slot) (s : AppState) :
  photoIn slot (fst (handleGenerate_begin s)) = photoIn slot s.
Proof.
  unfold handleGenerate_begin.
  destruct slot, (childPhoto s), (adultPhoto s); reflexivity.
Qed.

Lemma settle_photo (slot : Slot) (r : Settled) (s : AppState) :
  photoIn slot (handleGenerate_settle r s) = photoIn slot s.
Proof.
  destruct slot, r; reflexivity.
Qed.

Lemma step_uploadsAccepted (sys sys' : System) :
  step sys sys' -> uploadsAccepted sys -> uploadsAccepted sys'.
Proof.
  intros Hstep [Hr Hp].
  destruct Hstep as [sys slot files u _
                    | sys slot file ev before after Hq Hev
                    | sys _ _ | sys n r _ | sys _ | sys _ ].
  - split; cbn.
    + apply Forall_app. split; [exact Hr | apply uploadsOf_accepted].
    + exact Hp.
  - rewrite Hq in Hr. apply Forall_app in Hr as [Hb Ha].
    apply Forall_cons_iff in Ha as [Hf Ha].
    split; cbn.
    + apply Forall_app. split; assumption.
    + intros slot' p H.
      destruct (onImageUpload_photo _ _ _ _ _ _ Hev H) as [-> | H'].
      * exists file. split; [exact Hf | reflexivity].
      * eapply Hp, H'.
    - split; cbn; [exact Hr|].
      intros slot p H. rewrite begin_photo in H. eapply Hp, H.
    - split; cbn; [exact Hr|].
      intros slot p H. rewrite settle_photo in H. eapply Hp, H.
    - split; cbn; [exact Hr|].
      intros slot p H. destruct slot; discriminate.
    - split; assumption.
Qed.

Lemma reachable_uploadsAccepted (sys : System) :
  reachable sys -> uploadsAccepted sys.
Proof.
  induction 1 as [|sys sys' _ IH Hstep].
  - split; cbn; [constructor|]. intros [] p H; discriminate.
  - eapply step_uploadsAccepted; eassumption.
Qed.

Lemma step_loadingTracksClient (sys sys' : System) :
  step sys sys' -> loadingTracksClient sys -> loadingTracksClient sys'.
Proof.
  intros Hstep (Hle & Hiff & Hnone).
  destruct Hstep as [sys slot files u _
                    | sys slot file ev before after _ _
                    | sys Hshow Hen | sys n r Hn | sys Hshow | sys _ ].
  - repeat split; cbn; solve [assumption | apply Hiff].
  - destruct (onImageUpload_fields slot file ev (app sys)) as [El Eg].
    unfold loadingTracksClient. cbn. rewrite El, Eg.
    repeat split; solve [assumption | apply Hiff].
  - unfold showsUploads in Hshow. apply andb_true_iff in Hshow as [_ Hl].
    apply negb_true_iff in Hl.
    assert (H0 : generating sys = 0).
    { destruct (generating sys) as [|[|k]]; [reflexivity | | lia].
      destruct Hiff as [Hiff _]. rewrite Hiff in Hl by reflexivity.
      discriminate. }
    unfold isGenerateDisabled in Hen. unfold loadingTracksClient, clickGenerate.
    unfold handleGenerate_begin.
    destruct (childPhoto (app sys)), (adultPhoto (app sys));
      cbn in Hen; try discriminate.
    cbn. rewrite H0. repeat split; auto.
  - assert (n = 0) by lia. subst n.
    unfold loadingTracksClient. destruct r as [S | err]; cbn;
      repeat split; intros; solve [lia | discriminate].
  - unfold showsResult in Hshow. apply andb_true_iff in Hshow as [_ Hl].
    apply negb_true_iff in Hl.
    unfold loadingTracksClient. cbn. repeat split; intros; try lia;
      try discriminate.
    destruct Hiff as [Hiff _]. rewrite Hiff in Hl by assumption. discriminate.
  - repeat split; solve [assumption | apply Hiff].
Qed.

Lemma reachable_loadingTracksClient (sys : System) :
  reachable sys -> loadingTracksClient sys.
Proof.
  induction 1 as [|sys sys' _ IH Hstep].
  - unfold loadingTracksClient. cbn. repeat split; intros; try lia;
      discriminate.
  - eapply step_loadingTracksClient; eassumption.
Qed.





(** While a call is pending the application is loading and shows no
    result, so whatever else finishes meanwhile, a rejection leaves
    [generatedImage] null. *)
Lemma settle_rejected_in_flight (sys : System) (n : nat) (err : Thrown) :
  reachable sys ->
  generating sys = S n ->
  n = 0
  /\ isLoading (app sys) = true
  /\ generatedImage (app (settleGenerate (Rejected err) n sys)) = None
  /\ isLoading (app (settleGenerate (Rejected err) n sys)) = false.
Proof.
  intros Hr Hn.
  destruct (reachable_loadingTracksClient sys Hr) as (Hle & Hiff & Hnone).
  assert (n = 0) by lia. subst n.
  assert (Hl : isLoading (app sys) = true) by now apply Hiff.
  repeat split; try assumption.
  destruct err; cbn; now apply Hnone.
Qed.

End SystemFacts.

(** The session of the scenario is a run of the application. *)
Lemma session_reachable :
  reachable sessionReady /\ reachable sessionLoading
  /\ reachable sessionResult /\ reachable sessionGif
  /\ reachable (clickStartOver sessionResult).
Proof.
  unfold sessionResult, sessionLoading, sessionReady, sessionGif.
  repeat split; replay.
Qed.

Example session_states :
  app sessionLoading
  = mkAppState (Some (mkPhoto (Some "iVBORw0KGgo=") "image/png"))
               (Some (mkPhoto (Some "/9j/4AAQSg==") "image/jpeg"))
               None true None
  /\ app sessionResult
     = mkAppState (Some (mkPhoto (Some "iVBORw0KGgo=") "image/png"))
                  (Some (mkPhoto (Some "/9j/4AAQSg==") "image/jpeg"))
                  (Some "data:image/jpeg;base64,abc123==") false None
  /\ app (clickStartOver sessionResult) = initialState.
Proof. repeat split. Qed.

(** ** Capture and encoding of a photo *)

(** C6: a file whose declared type does not start with ["image/"] is rejected
    with an alert; the uploader keeps its preview and file name, the upload
    callback is not invoked, and the application is left as it was. *)
Theorem non_image_rejected (file : File) (others : list File)
  (u : UploaderState) :
  Js.startsWith (type file) "image/" = false ->
  handleFileChange (file :: others) u
  = (u, [Alert "Please select a valid image file."])
  /\ (forall slot,
        uploadsOf slot (snd (handleFileChange (file :: others) u)) = [])
  /\ (forall slot sys, selectFiles slot (file :: others) u sys = sys).
Proof.
  intros H. unfold selectFiles, handleFileChange. rewrite H.
  cbn [snd uploadsOf]. repeat split.
  intros _ [a r g]. cbn [app reading generating].
  now rewrite app_nil_r.
Qed.

Lemma non_image_rejected_witness :
  let u := mkUploaderState (Some "data:image/png;base64,iVBORw0KGgo=")
                           "child.png" in
  handleFileChange [notes; childPng] u
  = (u, [Alert "Please select a valid image file."])
  /\ (forall slot, uploadsOf slot (snd (handleFileChange [notes; childPng] u))
                   = [])
  /\ (forall slot sys, selectFiles slot [notes; childPng] u sys = sys).
Proof.
  intros u. apply (non_image_rejected notes [childPng] u). reflexivity.
Defined.



(** The read that is pending in that session ends: the slot holds the base64
    of the file under the type of the file. *)
Example pending_read_stored :
  reading sessionPending = [(AdultSlot, adultJpeg)]
  /\ photoIn AdultSlot
       (app (finishRead AdultSlot adultJpeg (OnLoad (readAsDataURL adultJpeg))
               [] [] sessionPending))
     = Some (mkPhoto (Some "/9j/4AAQSg==") "image/jpeg").
Proof. split; reflexivity. Qed.


(** C8: encoding a valid image file gives a photo whose [base64Data] is the
    content of the file in base64: it has no data-URL prefix, and decoding it
    gives back the bytes of the file. *)
Theorem encode_roundtrip (file : File) :
  validImageType (type file) = true ->
  exists b,
    fileToPhotoState file (OnLoad (readAsDataURL file))
    = Resolved (Some {| base64Data := Some b; mimeType := type file |})
    /\ ~ containsDataUrlPrefix b
    /\ Js.startsWith b "data:" = false
    /\ Base64.decode b = Some (bytes file).
Proof.
  intros H. unfold validImageType in H.
  apply andb_true_iff in H as [_ H]. apply negb_true_iff in H.
  exists (Base64.encode (bytes file)). repeat split.
  - unfold fileToPhotoState.
    now rewrite (ReaderFacts.readAsDataURL_split file H).
  - apply JsFacts.no_comma_no_prefix, ReaderFacts.encode_no_comma.
  - apply ReaderFacts.no_colon_no_scheme, ReaderFacts.encode_no_colon.
  - apply Base64Facts.decode_encode.
Qed.

Lemma encode_roundtrip_witness :
  exists b,
    fileToPhotoState childPng (OnLoad (readAsDataURL childPng))
    = Resolved (Some {| base64Data := Some b; mimeType := "image/png" |})
    /\ ~ containsDataUrlPrefix b
    /\ Js.startsWith b "data:" = false
    /\ Base64.decode b
       = Some [x89; x50; x4e; x47; x0d; x0a; x1a; x0a].
Proof.
  apply (encode_roundtrip childPng). reflexivity.
Defined.

(** The round trip rests on the declared type being free of commas: the
    piece at index 1 is otherwise cut out of the type. *)
Example comma_in_type :
  fileToPhotoState (mkFile "x" "image/a,b" [x68; x69])
    (OnLoad (readAsDataURL (mkFile "x" "image/a,b" [x68; x69])))
  = Resolved (Some (mkPhoto (Some "b;base64") "image/a,b")).
Proof. reflexivity. Qed.

(** ** The loading flag and the result *)

(** C9: in every state between completed handler steps, [isLoading] and
    [generatedImage] are not both truthy. *)
Theorem loading_excludes_result (sys : System) :
  reachable sys -> loadingExcludesResult (app sys).
Proof.
  intros Hr [Hl Hg].
  destruct (SystemFacts.reachable_loadingTracksClient sys Hr) as (_ & _ & H).
  rewrite (H Hl) in Hg. discriminate.
Qed.

Lemma loading_excludes_result_witness :
  loadingExcludesResult (app sessionLoading)
  /\ loadingExcludesResult (app sessionResult).
Proof.
  split.
  - apply (loading_excludes_result sessionLoading).
    unfold sessionLoading, sessionReady. replay.
  - apply (loading_excludes_result sessionResult).
    unfold sessionResult, sessionLoading, sessionReady. replay.
Defined.

(** ** Further properties of [App] *)

Module AppFacts.
Import Js SystemFacts.

Lemma step_messagesWellFormed (sys sys' : System) :
  step sys sys' -> messagesWellFormed sys -> messagesWellFormed sys'.
Proof.
  intros Hstep [Hg He].
  destruct Hstep as [sys slot files u _
                    | sys slot file ev before after _ Hev
                    | sys _ Hen | sys n r _ | sys _ | sys _ ].
  - split; assumption.
  - split; cbn [app finishRead].
    + destruct (onImageUpload_fields slot file ev (app sys)) as [_ ->].
      exact Hg.
    + intros e H. destruct Hev as [-> | ->], slot; cbn in H;
        solve [ now apply He
              | injection H as <-; left; reflexivity
              | injection H as <-; right; left; reflexivity ].
  - unfold isGenerateDisabled in Hen. unfold messagesWellFormed, clickGenerate.
    unfold handleGenerate_begin.
    destruct (childPhoto (app sys)), (adultPhoto (app sys));
      cbn in Hen; try discriminate.
    cbn. split; intros ? ?; discriminate.
  - destruct r as [S | err]; split; cbn.
    + intros g H. injection H as <-. now exists S.
    + exact He.
    + exact Hg.
    + intros e H. injection H as <-. right. right.
      destruct err as [m|]; eexists; reflexivity.
  - split; cbn; intros ? ?; discriminate.
  - split; assumption.
Qed.

Lemma reachable_messagesWellFormed (sys : System) :
  reachable sys -> messagesWellFormed sys.
Proof.
  induction 1 as [|sys sys' _ IH Hstep].
  - split; cbn; intros ? ?; discriminate.
  - eapply step_messagesWellFormed; eassumption.
Qed.

(** The two screens exclude each other. *)
Lemma showsResult_not_uploads (s : AppState) :
  showsResult s = true -> showsUploads s = false.
Proof.
  unfold showsResult, showsUploads.
  destruct (truthy (generatedImage s)), (isLoading s); cbn; congruence.
Qed.

Lemma loading_hides_buttons (s : AppState) :
  isLoading s = true -> showsUploads s = false /\ showsResult s = false.
Proof.
  unfold showsResult, showsUploads. intros ->.
  destruct (truthy (generatedImage s)); split; reflexivity.
Qed.


(** A result enters the state only when a pending request resolves. *)
Lemma step_result_origin (sys sys' : System) (g : string) :
  step sys sys' ->
  generatedImage (app sys') = Some g ->
  generatedImage (app sys) = Some g
  \/ exists S n,
       generating sys = Datatypes.S n
       /\ sys' = settleGenerate (Resolved S) n sys
       /\ g = "data:image/jpeg;base64," ++ S.
Proof.
  intros Hstep Hg.
  destruct Hstep as [sys slot files u _
                    | sys slot file ev before after _ _
                    | sys _ _ | sys n r Hn | sys _ | sys _ ].
  - left. exact Hg.
  - left. cbn [app finishRead] in Hg.
    now destruct (onImageUpload_fields slot file ev (app sys)) as [_ <-].
  - left. cbn [app clickGenerate] in Hg. unfold handleGenerate_begin in Hg.
    destruct (childPhoto (app sys)), (adultPhoto (app sys));
      solve [discriminate | exact Hg].
  - destruct r as [S | err].
    + right. exists S, n. split; [exact Hn|]. split; [reflexivity|].
      cbn in Hg. now injection Hg as <-.
    + left. exact Hg.
  - discriminate.
  - left. exact Hg.
Qed.

(** With the button enabled, [handleGenerate] issues a call. *)
Lemma enabled_button_calls_client (s : AppState) :
  isGenerateDisabled s = false ->
  exists c a, snd (handleGenerate_begin s) = Some (c, a).
Proof.
  unfold isGenerateDisabled, handleGenerate_begin.
  destruct (childPhoto s) as [c|], (adultPhoto s) as [a|]; cbn;
    try discriminate.
  intros _. now exists c, a.
Qed.

End AppFacts.

(** *** What is rendered *)

(** X1: in every state exactly one of the upload screen, the spinner and the
    result screen is rendered. *)
Theorem one_screen_rendered (s : AppState) :
  (showsUploads s = true /\ showsSpinner s = false /\ showsResult s = false)
  \/ (showsUploads s = false /\ showsSpinner s = true
      /\ showsResult s = false)
  \/ (showsUploads s = false /\ showsSpinner s = false
      /\ showsResult s = true).
Proof.
  unfold showsUploads, showsSpinner, showsResult.
  destruct (Js.truthy (generatedImage s)), (isLoading s); cbn; auto.
Qed.

(** *** The call to the client *)

(** X2: [handleGenerate] calls the client exactly when both photos are
    present, and then with the photo of the child slot first and the photo of
    the adult slot second. *)
Theorem client_called_with_stored_photos (s : AppState) (c a : Photo) :
  snd (handleGenerate_begin s) = Some (c, a)
  <-> childPhoto s = Some c /\ adultPhoto s = Some a.
Proof.
  unfold handleGenerate_begin.
  destruct (childPhoto s) as [c'|], (adultPhoto s) as [a'|]; cbn;
    split; try (intros [? ?]; congruence); try discriminate.
  intros H. injection H as -> ->. split; reflexivity.
Qed.

(** X3: a click on the enabled button always starts a request: the guard of
    [handleGenerate] does not fire, no error is set, and the state is the
    loading one. *)
Theorem enabled_click_starts_request (s : AppState) :
  isGenerateDisabled s = false ->
  snd (handleGenerate_begin s) <> None
  /\ fst (handleGenerate_begin s)
     = {| childPhoto := childPhoto s; adultPhoto := adultPhoto s;
          generatedImage := None; isLoading := true; error := None |}.
Proof.
  unfold isGenerateDisabled, handleGenerate_begin.
  destruct (childPhoto s) eqn:Hc, (adultPhoto s) eqn:Ha; cbn;
    try discriminate.
  intros _. split; [discriminate|].
  unfold andThen, setIsLoading, setError, setGeneratedImage. cbn.
  now rewrite Hc, Ha.
Qed.

Lemma enabled_click_starts_request_witness :
  snd (handleGenerate_begin (app sessionReady)) <> None
  /\ fst (handleGenerate_begin (app sessionReady))
     = {| childPhoto := childPhoto (app sessionReady);
          adultPhoto := adultPhoto (app sessionReady);
          generatedImage := None; isLoading := true; error := None |}.
Proof.
  apply (enabled_click_starts_request (app sessionReady)). reflexivity.
Defined.

(** X4: after a failed generation, whatever was thrown, the upload screen is
    back with the error banner, both photos are kept, and the button is
    enabled again. *)
Theorem failure_allows_retry (client : Photo -> Photo -> Settled)
  (s : AppState) (c a : Photo) (err : Thrown) :
  childPhoto s = Some c ->
  adultPhoto s = Some a ->
  client c a = Rejected err ->
  let s' := handleGenerate client s in
  showsUploads s' = true /\ showsError s' = true
  /\ isGenerateDisabled s' = false
  /\ childPhoto s' = Some c /\ adultPhoto s' = Some a.
Proof.
  intros Hc Ha Hr. unfold handleGenerate, handleGenerate_begin.
  rewrite Hc, Ha, Hr.
  unfold showsUploads, showsError, isGenerateDisabled.
  destruct err; cbn; rewrite ?Hc, ?Ha; repeat split.
Qed.

Lemma failure_allows_retry_witness :
  let client := fun (_ _ : Photo) => Rejected (A := string) ThrownOther in
  let s' := handleGenerate client (app sessionReady) in
  showsUploads s' = true /\ showsError s' = true
  /\ isGenerateDisabled s' = false
  /\ childPhoto s' = Some (mkPhoto (Some "iVBORw0KGgo=") "image/png")
  /\ adultPhoto s' = Some (mkPhoto (Some "/9j/4AAQSg==") "image/jpeg").
Proof.
  intros client.
  apply (failure_allows_retry client (app sessionReady)
           (mkPhoto (Some "iVBORw0KGgo=") "image/png")
           (mkPhoto (Some "/9j/4AAQSg==") "image/jpeg") ThrownOther);
    reflexivity.
Defined.



(** *** The upload handlers *)

(** X6: a read that fails stores the message of its slot in [error] and
    nothing else: both slots keep the photo they had, so the generate button
    is as enabled as before. *)
Theorem failed_read_keeps_photos (slot : Slot) (file : File) (s : AppState) :
  let s' := onImageUpload slot file OnError s in
  error s' = Some match slot with
                  | ChildSlot => "Failed to read child photo."
                  | AdultSlot => "Failed to read adult photo."
                  end
  /\ childPhoto s' = childPhoto s /\ adultPhoto s' = adultPhoto s
  /\ generatedImage s' = generatedImage s /\ isLoading s' = isLoading s
  /\ isGenerateDisabled s' = isGenerateDisabled s.
Proof.
  destruct slot; repeat split.
Qed.

(** X7: a read that succeeds replaces the photo of its slot and nothing else;
    in particular an error that was displayed stays displayed. *)
Theorem successful_read_keeps_error (slot : Slot) (file : File)
  (result : string) (s : AppState) :
  let s' := onImageUpload slot file (OnLoad result) s in
  photoIn slot s'
  = Some {| base64Data := nth_error (Js.split "," result) 1;
            mimeType := type file |}
  /\ (forall other, other <> slot -> photoIn other s' = photoIn other s)
  /\ error s' = error s /\ showsError s' = showsError s
  /\ generatedImage s' = generatedImage s /\ isLoading s' = isLoading s.
Proof.
  destruct slot; repeat split; intros []; intros H;
    solve [reflexivity | contradiction H; reflexivity].
Qed.

(** *** The uploader *)

(** X8: [handleFileChange] looks at the first file only, whatever else was
    dropped with it: an empty selection does nothing, and a selection either
    alerts or passes its first file on, once, showing its name. *)
Theorem file_change_first_file_only (files : list File) (u : UploaderState) :
  handleFileChange files u = handleFileChange (firstn 1 files) u
  /\ match files with
     | [] => handleFileChange files u = (u, [])
     | file :: _ =>
         handleFileChange files u
         = (u, [Alert "Please select a valid image file."])
         \/ handleFileChange files u
            = ({| imagePreview := imagePreview u; fileName := name file |},
               [ReadPreview file; OnImageUpload file])
     end.
Proof.
  destruct files as [|file others]; [split; reflexivity|].
  unfold handleFileChange. cbn [firstn].
  destruct (Js.startsWith (type file) "image/"); split; auto.
Qed.

(** X9: for a file with a valid image type, the preview that the uploader
    shows once its read ends is the data URL made of the media type and the
    base64 data of the photo that [App] stores for the same file. *)
Theorem preview_matches_stored_photo (slot : Slot) (file : File)
  (s : AppState) (u : UploaderState) :
  validImageType (type file) = true ->
  exists b,
    photoIn slot (onImageUpload slot file (OnLoad (readAsDataURL file)) s)
    = Some {| base64Data := Some b; mimeType := type file |}
    /\ imagePreview (handlePreviewLoadEnd (Some (readAsDataURL file)) u)
       = Some ("data:" ++ type file ++ ";base64," ++ b).
Proof.
  intros H. unfold validImageType in H.
  apply andb_true_iff in H as [Hi Hc]. apply negb_true_iff in Hc.
  exists (Base64.encode (bytes file)). split.
  - destruct slot;
      unfold onImageUpload, handleChildPhotoUpload, handleAdultPhotoUpload,
        fileToPhotoState, photoIn;
      cbn [childPhoto adultPhoto setChildPhoto setAdultPhoto];
      now rewrite (ReaderFacts.readAsDataURL_split file Hc).
  - unfold handlePreviewLoadEnd, readAsDataURL. cbn [imagePreview].
    destruct (type file); [discriminate | reflexivity].
Qed.

Lemma preview_matches_stored_photo_witness :
  exists b,
    photoIn AdultSlot
      (onImageUpload AdultSlot adultJpeg (OnLoad (readAsDataURL adultJpeg))
         initialState)
    = Some {| base64Data := Some b; mimeType := "image/jpeg" |}
    /\ imagePreview
         (handlePreviewLoadEnd (Some (readAsDataURL adultJpeg))
            initialUploader)
       = Some ("data:" ++ "image/jpeg" ++ ";base64," ++ b).
Proof.
  apply (preview_matches_stored_photo AdultSlot adultJpeg initialState
           initialUploader).
  reflexivity.
Defined.

(** *** Requests in flight *)

(** X10: at most one call to the client is ever pending; one is pending
    exactly while [isLoading] is true, and the generate button is then neither
    enabled nor rendered. *)
Theorem single_request_in_flight (sys : System) :
  reachable sys ->
  generating sys <= 1
  /\ (generating sys = 1 <-> isLoading (app sys) = true)
  /\ (generating sys = 1 ->
      isGenerateDisabled (app sys) = true
      /\ showsUploads (app sys) = false).
Proof.
  intros Hr.
  destruct (SystemFacts.reachable_loadingTracksClient sys Hr)
    as (Hle & Hiff & _).
  split; [exact Hle|]. split; [exact Hiff|].
  intros H. apply Hiff in H. unfold isGenerateDisabled.
  rewrite H, !orb_true_r.
  split; [reflexivity | now apply AppFacts.loading_hides_buttons].
Qed.

Lemma single_request_in_flight_witness :
  generating sessionLoading <= 1
  /\ (generating sessionLoading = 1 <-> isLoading (app sessionLoading) = true)
  /\ (generating sessionLoading = 1 ->
      isGenerateDisabled (app sessionLoading) = true
      /\ showsUploads (app sessionLoading) = false).
Proof.
  apply (single_request_in_flight sessionLoading).
  unfold sessionLoading, sessionReady. replay.
Defined.

(** X11: while the application is loading, no event of the user can be
    handled: the only steps are the end of a file read, which leaves it
    loading, and the settling of the request, which ends the loading. *)
Theorem loading_ends_only_by_settling (sys sys' : System) :
  reachable sys ->
  isLoading (app sys) = true ->
  step sys sys' ->
  (exists r, sys' = settleGenerate r 0 sys /\ isLoading (app sys') = false)
  \/ (exists slot file ev before after,
        sys' = finishRead slot file ev before after sys
        /\ isLoading (app sys') = true).
Proof.
  intros Hr Hl Hstep.
  destruct (SystemFacts.reachable_loadingTracksClient sys Hr) as (Hle & _).
  destruct (AppFacts.loading_hides_buttons _ Hl) as [Hu Hres].
  destruct Hstep as [sys slot files u Hshow
                    | sys slot file ev before after _ _
                    | sys Hshow _ | sys n r Hn | sys Hshow | sys Hshow ];
    try congruence.
  - right. exists slot, file, ev, before, after. split; [reflexivity|].
    cbn [app finishRead].
    now destruct (SystemFacts.onImageUpload_fields slot file ev (app sys))
      as [-> _].
  - left. assert (n = 0) by lia. subst n. exists r. split; [reflexivity|].
    destruct r; reflexivity.
Qed.

Lemma loading_ends_only_by_settling_witness :
  (exists r, sessionResult = settleGenerate r 0 sessionLoading
             /\ isLoading (app sessionResult) = false)
  \/ (exists slot file ev before after,
        sessionResult = finishRead slot file ev before after sessionLoading
        /\ isLoading (app sessionResult) = true).
Proof.
  apply (loading_ends_only_by_settling sessionLoading sessionResult).
  - unfold sessionLoading, sessionReady. replay.
  - reflexivity.
  - apply step_settle. reflexivity.
Defined.

(** X12: from the result screen the only way out is "Create Another", which
    gives the initial state; a download changes nothing, a file read that
    ends meanwhile leaves the result on screen, and nothing else can
    happen. *)
Theorem result_left_only_by_start_over (sys sys' : System) :
  reachable sys ->
  showsResult (app sys) = true ->
  step sys sys' ->
  sys' = sys
  \/ (sys' = clickStartOver sys /\ app sys' = initialState)
  \/ (exists slot file ev before after,
        sys' = finishRead slot file ev before after sys
        /\ generatedImage (app sys') = generatedImage (app sys)
        /\ showsResult (app sys') = true).
Proof.
  intros Hr Hres Hstep.
  destruct (SystemFacts.reachable_loadingTracksClient sys Hr)
    as (Hle & Hiff & _).
  pose proof (AppFacts.showsResult_not_uploads _ Hres) as Hu.
  assert (Hl : isLoading (app sys) = false).
  { unfold showsResult in Hres. apply andb_true_iff in Hres as [_ H].
    now apply negb_true_iff. }
  destruct Hstep as [sys slot files u Hshow
                    | sys slot file ev before after _ _
                    | sys Hshow _ | sys n r Hn | sys _ | sys _ ];
    try congruence.
  - right. right. exists slot, file, ev, before, after.
    split; [reflexivity|]. unfold showsResult in *. cbn [app finishRead].
    destruct (SystemFacts.onImageUpload_fields slot file ev (app sys))
      as [-> ->].
    split; [reflexivity | exact Hres].
  - exfalso. assert (n = 0) by lia. subst n.
    destruct Hiff as [Hiff _]. rewrite Hiff in Hl by assumption.
    discriminate.
  - right. left. split; reflexivity.
  - left. reflexivity.
Qed.

Lemma result_left_only_by_start_over_witness :
  clickStartOver sessionResult = sessionResult
  \/ (clickStartOver sessionResult = clickStartOver sessionResult
      /\ app (clickStartOver sessionResult) = initialState)
  \/ (exists slot file ev before after,
        clickStartOver sessionResult
        = finishRead slot file ev before after sessionResult
        /\ generatedImage (app (clickStartOver sessionResult))
           = generatedImage (app sessionResult)
        /\ showsResult (app (clickStartOver sessionResult)) = true).
Proof.
  apply (result_left_only_by_start_over sessionResult
           (clickStartOver sessionResult)).
  - unfold sessionResult, sessionLoading, sessionReady. replay.
  - reflexivity.
  - apply step_start_over. reflexivity.
Defined.

(** *** What is stored and sent *)

(** X13: in every reachable state, when a pending request resolves with a
    string, [handleDownload] offers ["data:image/jpeg;base64,"] followed by
    that string under the name ['rewindpix_reunion.jpeg']; a result enters
    the state in no other way; [handleDownload] offers exactly the result
    that is stored, and nothing when there is none. *)
Theorem download_offers_result (sys : System) :
  reachable sys ->
  (forall S n,
     generating sys = Datatypes.S n ->
     generatedImage (app (settleGenerate (Resolved S) n sys))
     = Some ("data:image/jpeg;base64," ++ S)
     /\ handleDownload (app (settleGenerate (Resolved S) n sys))
        = Some ("data:image/jpeg;base64," ++ S, "rewindpix_reunion.jpeg"))
  /\ (forall sys' g,
        step sys sys' ->
        generatedImage (app sys') = Some g ->
        generatedImage (app sys) = Some g
        \/ exists S n,
             generating sys = Datatypes.S n
             /\ sys' = settleGenerate (Resolved S) n sys
             /\ g = "data:image/jpeg;base64," ++ S)
  /\ (forall g, generatedImage (app sys) = Some g ->
        handleDownload (app sys) = Some (g, "rewindpix_reunion.jpeg"))
  /\ (generatedImage (app sys) = None -> handleDownload (app sys) = None).
Proof.
  intros Hr.
  destruct (AppFacts.reachable_messagesWellFormed sys Hr) as [Hg _].
  split; [|split; [|split]].
  - intros S n _. split; reflexivity.
  - intros sys' g. apply AppFacts.step_result_origin.
  - intros g H. destruct (Hg g H) as [S ->].
    unfold handleDownload. rewrite H. reflexivity.
  - intros H. unfold handleDownload. now rewrite H.
Qed.

Lemma download_offers_result_witness :
  handleDownload (app (settleGenerate (Resolved "abc123==") 0 sessionLoading))
  = Some ("data:image/jpeg;base64,abc123==", "rewindpix_reunion.jpeg")
  /\ handleDownload (app sessionResult)
     = Some ("data:image/jpeg;base64,abc123==", "rewindpix_reunion.jpeg").
Proof.
  split.
  - apply (download_offers_result sessionLoading).
    + unfold sessionLoading, sessionReady. replay.
    + reflexivity.
  - apply (download_offers_result sessionResult).
    + unfold sessionResult, sessionLoading, sessionReady. replay.
    + reflexivity.
Defined.

(** X14: in every reachable state the error, if any, is the message of a
    failed read or of a failed generation; the message of the guard of
    [handleGenerate] is never displayed, because the button is disabled
    whenever the guard would fire. *)
Theorem errors_are_known (sys : System) (e : string) :
  reachable sys ->
  error (app sys) = Some e ->
  knownError e /\ e <> "Please upload both photos before generating.".
Proof.
  intros Hr He.
  destruct (AppFacts.reachable_messagesWellFormed sys Hr) as [_ H].
  pose proof (H e He) as K. split; [exact K|].
  destruct K as [-> | [-> | [m ->]]]; cbn; discriminate.
Qed.

Lemma errors_are_known_witness :
  knownError "Failed to generate image: quota exceeded"
  /\ "Failed to generate image: quota exceeded"
     <> "Please upload both photos before generating.".
Proof.
  apply (errors_are_known sessionFailed).
  - unfold sessionFailed, sessionLoading, sessionReady. replay.
  - reflexivity.
Defined.

(** X15: in every reachable state, a request sent to the client carries two
    photos that were read from files accepted by the uploader: each has a
    media type that starts with ["image/"] and base64 data that is defined
    and free of commas. *)
Theorem requests_carry_accepted_photos (sys : System) (c a : Photo) :
  reachable sys ->
  snd (handleGenerate_begin (app sys)) = Some (c, a) ->
  Forall
    (fun p =>
       exists file b,
         Js.startsWith (type file) "image/" = true
         /\ p = {| base64Data := Some b; mimeType := type file |}
         /\ Js.hasChar "," b = false)
    [c; a].
Proof.
  intros Hr Hcall.
  destruct (SystemFacts.reachable_uploadsAccepted sys Hr) as [_ H].
  assert (Hc : childPhoto (app sys) = Some c /\ adultPhoto (app sys) = Some a).
  { revert Hcall. unfold handleGenerate_begin.
    destruct (childPhoto (app sys)), (adultPhoto (app sys)); cbn;
      try discriminate.
    intros E. injection E as -> ->. split; reflexivity. }
  destruct Hc as [Hc Ha].
  assert (K : forall p, fromAcceptedFile p ->
            exists file b,
              Js.startsWith (type file) "image/" = true
              /\ p = {| base64Data := Some b; mimeType := type file |}
              /\ Js.hasChar "," b = false).
  { intros p (file & Hf & ->).
    destruct (ReaderFacts.photoOf_base64Data file) as (b & Hb & Hn).
    exists file, b. split; [exact Hf|]. split; [|exact Hn].
    unfold photoOf in *. cbn [base64Data] in Hb. now rewrite Hb. }
  repeat constructor.
  - apply K, (H ChildSlot c Hc).
  - apply K, (H AdultSlot a Ha).
Qed.

Lemma requests_carry_accepted_photos_witness :
  Forall
    (fun p =>
       exists file b,
         Js.startsWith (type file) "image/" = true
         /\ p = {| base64Data := Some b; mimeType := type file |}
         /\ Js.hasChar "," b = false)
    [mkPhoto (Some "iVBORw0KGgo=") "image/png";
     mkPhoto (Some "/9j/4AAQSg==") "image/jpeg"].
Proof.
  apply (requests_carry_accepted_photos sessionReady).
  - unfold sessionReady. replay.
  - reflexivity.
Defined.

(** X16: a slot that holds a photo keeps holding one through every step but
    "Create Another": photos are replaced, never dropped. *)
Theorem filled_slot_stays_filled (sys sys' : System) (slot : Slot) :
  step sys sys' ->
  photoIn slot (app sys) <> None ->
  photoIn slot (app sys') <> None \/ sys' = clickStartOver sys.
Proof.
  intros Hstep Hp.
  destruct Hstep as [sys slot' files u _
                    | sys slot' file ev before after _ _
                    | sys _ _ | sys n r _ | sys _ | sys _ ].
  - left. exact Hp.
  - left. destruct slot, slot', ev; cbn; solve [exact Hp | discriminate].
  - left. cbn [app clickGenerate]. now rewrite SystemFacts.begin_photo.
  - left. cbn [app settleGenerate]. now rewrite SystemFacts.settle_photo.
  - right. reflexivity.
  - left. exact Hp.
Qed.

Lemma filled_slot_stays_filled_witness :
  photoIn AdultSlot (app sessionResult) <> None
  \/ sessionResult = clickStartOver sessionLoading.
Proof.
  apply (filled_slot_stays_filled sessionLoading sessionResult AdultSlot).
  - apply step_settle. reflexivity.
  - discriminate.
Defined.

(** X17: the result screen and the error banner do not exclude each other.
    From any reachable state with the button enabled, choosing a file,
    clicking generate before the file is read, a failure of that read while
    loading and then a successful generation lead to a state that renders the
    result together with the message of the failed read. *)
Theorem result_with_stale_error (sys : System) (file : File) (S : string) :
  reachable sys ->
  showsUploads (app sys) = true ->
  isGenerateDisabled (app sys) = false ->
  Js.startsWith (type file) "image/" = true ->
  let sys' :=
    settleGenerate (Resolved S) 0
      (finishRead ChildSlot file OnError (reading sys) []
         (clickGenerate
            (selectFiles ChildSlot [file] initialUploader sys))) in
  reachable sys'
  /\ showsResult (app sys') = true
  /\ showsError (app sys') = true
  /\ generatedImage (app sys') = Some ("data:image/jpeg;base64," ++ S)
  /\ error (app sys') = Some "Failed to read child photo.".
Proof.
  intros Hr Hshow Hen Hf sys'.
  destruct (SystemFacts.reachable_loadingTracksClient sys Hr)
    as (Hle & Hiff & _).
  assert (Hl : isLoading (app sys) = false).
  { unfold showsUploads in Hshow. apply andb_true_iff in Hshow as [_ H].
    now apply negb_true_iff. }
  assert (H0 : generating sys = 0).
  { destruct (generating sys) as [|[|k]]; [reflexivity | | lia].
    destruct Hiff as [Hiff _]. rewrite Hiff in Hl by reflexivity.
    discriminate. }
  destruct (AppFacts.enabled_button_calls_client (app sys) Hen) as (c & a & Hb).
  split; [|subst sys'; cbn; repeat split].
  subst sys'.
  set (s1 := selectFiles ChildSlot [file] initialUploader sys).
  set (s2 := clickGenerate s1).
  set (s3 := finishRead ChildSlot file OnError (reading sys) [] s2).
  apply (reachable_step s3);
    [apply (reachable_step s2);
       [apply (reachable_step s1);
          [apply (reachable_step sys); [exact Hr|]|]|]|].
  - apply step_select. exact Hshow.
  - apply step_generate; assumption.
  - apply step_read; [|right; reflexivity].
    subst s2 s1. cbn [reading clickGenerate selectFiles].
    unfold handleFileChange. rewrite Hf. reflexivity.
  - apply step_settle. subst s3 s2 s1.
    cbn [generating finishRead clickGenerate selectFiles app].
    rewrite H0, Hb. reflexivity.
Qed.

Lemma result_with_stale_error_witness :
  let sys' :=
    settleGenerate (Resolved "abc123==") 0
      (finishRead ChildSlot oldGif OnError (reading sessionReady) []
         (clickGenerate
            (selectFiles ChildSlot [oldGif] initialUploader sessionReady))) in
  reachable sys'
  /\ showsResult (app sys') = true
  /\ showsError (app sys') = true
  /\ generatedImage (app sys') = Some "data:image/jpeg;base64,abc123=="
  /\ error (app sys') = Some "Failed to read child photo.".
Proof.
  apply (result_with_stale_error sessionReady oldGif "abc123==").
  - unfold sessionReady. replay.
  - reflexivity.
  - reflexivity.
  - reflexivity.
Defined.

Module ResultFacts.
Import SystemFacts.

Lemma onImageUpload_keeps_filled (slot slot' : Slot) (file : File)
  (ev : ReaderEvent) (s : AppState) :
  photoIn slot' s <> None ->
  photoIn slot' (onImageUpload slot file ev s) <> None.
Proof.
  intros H. destruct slot, slot', ev; cbn; solve [exact H | discriminate].
Qed.

Lemma reachable_busy_has_photos (sys : System) :
  reachable sys ->
  isLoading (app sys) = true \/ generatedImage (app sys) <> None ->
  forall slot, photoIn slot (app sys) <> None.
Proof.
  induction 1 as [|sys sys' Hr IH Hstep].
  - intros [H | H]; [discriminate | now contradiction H].
  - destruct (reachable_loadingTracksClient sys Hr) as (Hle & Hiff & _).
    destruct Hstep as [sys slot' files u _
                      | sys slot' file ev before after _ _
                      | sys _ Hen | sys n r Hn | sys _ | sys _ ].
    + exact IH.
    + cbn [app finishRead].
      destruct (onImageUpload_fields slot' file ev (app sys)) as [-> ->].
      intros H slot. apply onImageUpload_keeps_filled. now apply IH.
    + intros _ slot. cbn [app clickGenerate]. rewrite begin_photo.
      unfold isGenerateDisabled in Hen.
      destruct slot; cbn;
        destruct (childPhoto (app sys)), (adultPhoto (app sys));
        cbn in Hen; solve [discriminate].
    + intros _ slot. cbn [app settleGenerate]. rewrite settle_photo.
      apply IH. left. apply Hiff. lia.
    + intros [H | H]; [discriminate | now contradiction H].
    + exact IH.
Qed.

End ResultFacts.

(** X18: in every reachable state, while the application is loading or holds
    a result, both photo slots are filled: a request or a result never
    outlives the photos it was made from. *)
Theorem result_has_both_photos (sys : System) :
  reachable sys ->
  isLoading (app sys) = true \/ generatedImage (app sys) <> None ->
  childPhoto (app sys) <> None /\ adultPhoto (app sys) <> None.
Proof.
  intros Hr H. split.
  - apply (ResultFacts.reachable_busy_has_photos sys Hr H ChildSlot).
  - apply (ResultFacts.reachable_busy_has_photos sys Hr H AdultSlot).
Qed.

Lemma result_has_both_photos_witness :
  childPhoto (app sessionResult) <> None
  /\ adultPhoto (app sessionResult) <> None.
Proof.
  apply (result_has_both_photos sessionResult).
  - unfold sessionResult, sessionLoading, sessionReady. replay.
  - right. discriminate.
Defined.
